(** * CHIP-8 emulator: a shallow embedding of [src/chip8.cpp]

    The machine state of [class Chip8] is a record; every member function
    [OP_xxxx], the four sub-dispatchers [Table0/8/E/F] and [Cycle] become
    functions [Chip8 -> option Chip8].  Fixed-width unsigned integers are
    values of [Z] with their wrap-around written out ([u8], [u16]).  The
    C++ arrays are lists; an access outside the array has no defined
    behaviour in C++ and is modelled by [None]. *)

From stdpp Require Import base numbers option list list_numbers.

Open Scope Z_scope.

(** ** Fixed-width unsigned integers *)

Definition u8 (z : Z) : Z := z mod 256.
Definition u16 (z : Z) : Z := z mod 65536.

Definition is_u8 (z : Z) : Prop := 0 ≤ z < 256.
Definition is_u16 (z : Z) : Prop := 0 ≤ z < 65536.

(** ** Constants of the translation unit *)

Definition START_ADDRESS : Z := 0x200.
Definition FRONT_SIZE : Z := 80.
Definition FONT_START_ADDRESS : Z := 0x50.
Definition VIDEO_WIDTH : Z := 64.
Definition VIDEO_HEIGHT : Z := 32.

Definition fontset : list Z :=
  [ 0xF0; 0x90; 0x90; 0x90; 0xF0;
    0x20; 0x60; 0x20; 0x20; 0x70;
    0xF0; 0x10; 0xF0; 0x80; 0xF0;
    0xF0; 0x10; 0xF0; 0x10; 0xF0;
    0x90; 0x90; 0xF0; 0x10; 0x10;
    0xF0; 0x80; 0xF0; 0x10; 0xF0;
    0xF0; 0x80; 0xF0; 0x90; 0xF0;
    0xF0; 0x10; 0x20; 0x40; 0x40;
    0xF0; 0x90; 0xF0; 0x90; 0xF0;
    0xF0; 0x90; 0xF0; 0x10; 0xF0;
    0xF0; 0x90; 0xF0; 0x90; 0x90;
    0xE0; 0x90; 0xE0; 0x90; 0xE0;
    0xF0; 0x80; 0x80; 0x80; 0xF0;
    0xE0; 0x90; 0x90; 0x90; 0xE0;
    0xF0; 0x80; 0xF0; 0x80; 0xF0;
    0xF0; 0x80; 0xF0; 0x80; 0x80 ].

(** ** Machine state

    One field per data member of [class Chip8].  [randGen] stands for the
    random engine together with its distribution: the stream of bytes that
    successive calls [randByte(randGen)] return. *)

Record Chip8 : Type := mkChip8 {
  registers : list Z;   (* uint8_t  registers[16]  *)
  memory : list Z;      (* uint8_t  memory[4096]   *)
  index : Z;            (* uint16_t index          *)
  pc : Z;               (* uint16_t pc             *)
  stack : list Z;       (* uint16_t stack[16]      *)
  sp : Z;               (* uint8_t  sp             *)
  delayTimer : Z;       (* uint8_t  delayTimer     *)
  soundTimer : Z;       (* uint8_t  soundTimer     *)
  keypad : list Z;      (* uint8_t  keypad[16]     *)
  video : list Z;       (* uint32_t video[64 * 32] *)
  opcode : Z;           (* uint16_t opcode         *)
  randGen : nat → Z
}.

Definition set_registers (v : list Z) (s : Chip8) : Chip8 :=
  mkChip8 v (memory s) (index s) (pc s) (stack s) (sp s) (delayTimer s)
    (soundTimer s) (keypad s) (video s) (opcode s) (randGen s).
Definition set_memory (v : list Z) (s : Chip8) : Chip8 :=
  mkChip8 (registers s) v (index s) (pc s) (stack s) (sp s) (delayTimer s)
    (soundTimer s) (keypad s) (video s) (opcode s) (randGen s).
Definition set_index (v : Z) (s : Chip8) : Chip8 :=
  mkChip8 (registers s) (memory s) v (pc s) (stack s) (sp s) (delayTimer s)
    (soundTimer s) (keypad s) (video s) (opcode s) (randGen s).
Definition set_pc (v : Z) (s : Chip8) : Chip8 :=
  mkChip8 (registers s) (memory s) (index s) v (stack s) (sp s) (delayTimer s)
    (soundTimer s) (keypad s) (video s) (opcode s) (randGen s).
Definition set_stack (v : list Z) (s : Chip8) : Chip8 :=
  mkChip8 (registers s) (memory s) (index s) (pc s) v (sp s) (delayTimer s)
    (soundTimer s) (keypad s) (video s) (opcode s) (randGen s).
Definition set_sp (v : Z) (s : Chip8) : Chip8 :=
  mkChip8 (registers s) (memory s) (index s) (pc s) (stack s) v (delayTimer s)
    (soundTimer s) (keypad s) (video s) (opcode s) (randGen s).
Definition set_delayTimer (v : Z) (s : Chip8) : Chip8 :=
  mkChip8 (registers s) (memory s) (index s) (pc s) (stack s) (sp s) v
    (soundTimer s) (keypad s) (video s) (opcode s) (randGen s).
Definition set_soundTimer (v : Z) (s : Chip8) : Chip8 :=
  mkChip8 (registers s) (memory s) (index s) (pc s) (stack s) (sp s)
    (delayTimer s) v (keypad s) (video s) (opcode s) (randGen s).
Definition set_keypad (v : list Z) (s : Chip8) : Chip8 :=
  mkChip8 (registers s) (memory s) (index s) (pc s) (stack s) (sp s)
    (delayTimer s) (soundTimer s) v (video s) (opcode s) (randGen s).
Definition set_video (v : list Z) (s : Chip8) : Chip8 :=
  mkChip8 (registers s) (memory s) (index s) (pc s) (stack s) (sp s)
    (delayTimer s) (soundTimer s) (keypad s) v (opcode s) (randGen s).
Definition set_opcode (v : Z) (s : Chip8) : Chip8 :=
  mkChip8 (registers s) (memory s) (index s) (pc s) (stack s) (sp s)
    (delayTimer s) (soundTimer s) (keypad s) (video s) v (randGen s).
Definition set_randGen (v : nat → Z) (s : Chip8) : Chip8 :=
  mkChip8 (registers s) (memory s) (index s) (pc s) (stack s) (sp s)
    (delayTimer s) (soundTimer s) (keypad s) (video s) (opcode s) v.

(** ** Array accesses

    [a[i]] as an rvalue and [a[i] = v].  Both are undefined outside the
    array, which the model reports as [None]. *)

Definition load (a : list Z) (i : Z) : option Z :=
  if decide (0 ≤ i) then a !! Z.to_nat i else None.

Definition store (a : list Z) (i v : Z) : option (list Z) :=
  if decide (0 ≤ i < Z.of_nat (length a)) then Some (<[Z.to_nat i := v]> a)
  else None.

(** [registers[i]] and [registers[i] = v] on the state. *)
Definition reg (s : Chip8) (i : Z) : option Z := load (registers s) i.

Definition set_reg (i v : Z) (s : Chip8) : option Chip8 :=
  r ← store (registers s) i v; Some (set_registers r s).

(** [memory[a] = v] on the state. *)
Definition set_mem (a v : Z) (s : Chip8) : option Chip8 :=
  m ← store (memory s) a v; Some (set_memory m s).

(** A counted loop [for (i = lo; ...; ++i) body] that runs [n] times and
    stops at the first undefined step. *)
Fixpoint for_loop {A : Type} (n : nat) (i : Z) (body : Z → A → option A)
    (a : A) : option A :=
  match n with
  | O => Some a
  | S n' => a' ← body i a; for_loop n' (i + 1) body a'
  end.

(** ** Operand fields of the instruction word *)

Definition Vx_of (s : Chip8) : Z := Z.shiftr (Z.land (opcode s) 0x0F00) 8.
Definition Vy_of (s : Chip8) : Z := Z.shiftr (Z.land (opcode s) 0x00F0) 4.
Definition byte_of (s : Chip8) : Z := Z.land (opcode s) 0x00FF.
Definition address_of (s : Chip8) : Z := Z.land (opcode s) 0x0FFF.

(** ** The instructions *)

Definition OP_NULL (s : Chip8) : option Chip8 := Some s.

Definition OP_00E0 (s : Chip8) : option Chip8 :=
  Some (set_video (replicate (64 * 32) 0) s).

Definition OP_00EE (s : Chip8) : option Chip8 :=
  let s := set_sp (u8 (sp s - 1)) s in
  a ← load (stack s) (sp s);
  Some (set_pc a s).

Definition OP_1nnn (s : Chip8) : option Chip8 :=
  let address := u16 (address_of s) in
  Some (set_pc address s).

Definition OP_2nnn (s : Chip8) : option Chip8 :=
  let address := u16 (address_of s) in
  st ← store (stack s) (sp s) (pc s);
  let s := set_stack st s in
  let s := set_sp (u8 (sp s + 1)) s in
  Some (set_pc address s).

Definition OP_3xkk (s : Chip8) : option Chip8 :=
  let Vx := u8 (Vx_of s) in
  let byte := u8 (byte_of s) in
  vx ← reg s Vx;
  Some (if decide (vx = byte) then set_pc (u16 (pc s + 2)) s else s).

Definition OP_4xkk (s : Chip8) : option Chip8 :=
  let Vx := u8 (Vx_of s) in
  let byte := u8 (byte_of s) in
  vx ← reg s Vx;
  Some (if decide (vx ≠ byte) then set_pc (u16 (pc s + 2)) s else s).

Definition OP_5xy0 (s : Chip8) : option Chip8 :=
  let Vx := u8 (Vx_of s) in
  let Vy := u8 (Vy_of s) in
  vx ← reg s Vx;
  vy ← reg s Vy;
  Some (if decide (vx = vy) then set_pc (u16 (pc s + 2)) s else s).

Definition OP_6xkk (s : Chip8) : option Chip8 :=
  let Vx := u8 (Vx_of s) in
  let byte := u8 (byte_of s) in
  set_reg Vx byte s.

Definition OP_7xkk (s : Chip8) : option Chip8 :=
  let Vx := u8 (Vx_of s) in
  let byte := u8 (byte_of s) in
  vx ← reg s Vx;
  set_reg Vx (u8 (vx + byte)) s.

Definition OP_8xy0 (s : Chip8) : option Chip8 :=
  let Vx := u8 (Vx_of s) in
  let Vy := u8 (Vy_of s) in
  vy ← reg s Vy;
  set_reg Vx vy s.

Definition OP_8xy1 (s : Chip8) : option Chip8 :=
  let Vx := u8 (Vx_of s) in
  let Vy := u8 (Vy_of s) in
  vx ← reg s Vx;
  vy ← reg s Vy;
  set_reg Vx (u8 (Z.lor vx vy)) s.

Definition OP_8xy2 (s : Chip8) : option Chip8 :=
  let Vx := u8 (Vx_of s) in
  let Vy := u8 (Vy_of s) in
  vx ← reg s Vx;
  vy ← reg s Vy;
  set_reg Vx (u8 (Z.land vx vy)) s.

Definition OP_8xy3 (s : Chip8) : option Chip8 :=
  let Vx := u8 (Vx_of s) in
  let Vy := u8 (Vy_of s) in
  vx ← reg s Vx;
  vy ← reg s Vy;
  set_reg Vx (u8 (Z.lxor vx vy)) s.

(** The sum is taken from the registers before the flag is written; the
    flag is written before [registers[Vx]]. *)
Definition OP_8xy4 (s : Chip8) : option Chip8 :=
  let Vx := u8 (Vx_of s) in
  let Vy := u8 (Vy_of s) in
  vx ← reg s Vx;
  vy ← reg s Vy;
  let sum := u16 (vx + vy) in
  s ← set_reg 0xF (if decide (sum > 255) then 1 else 0) s;
  set_reg Vx (u8 (Z.land sum 0xFF)) s.

(** [registers[Vx] -= registers[Vy]] reads both registers again, after the
    flag has been written. *)
Definition OP_8xy5 (s : Chip8) : option Chip8 :=
  let Vx := u8 (Vx_of s) in
  let Vy := u8 (Vy_of s) in
  vx ← reg s Vx;
  vy ← reg s Vy;
  s ← set_reg 0xF (if decide (vx > vy) then 1 else 0) s;
  vx ← reg s Vx;
  vy ← reg s Vy;
  set_reg Vx (u8 (vx - vy)) s.

Definition OP_8xy6 (s : Chip8) : option Chip8 :=
  let Vx := u8 (Vx_of s) in
  vx ← reg s Vx;
  s ← set_reg 0xF (u8 (Z.land vx 0x1)) s;
  vx ← reg s Vx;
  set_reg Vx (u8 (Z.shiftr vx 1)) s.

Definition OP_8xy7 (s : Chip8) : option Chip8 :=
  let Vx := u8 (Vx_of s) in
  let Vy := u8 (Vy_of s) in
  vy ← reg s Vy;
  vx ← reg s Vx;
  s ← set_reg 0xF (if decide (vy > vx) then 1 else 0) s;
  vy ← reg s Vy;
  vx ← reg s Vx;
  set_reg Vx (u8 (vy - vx)) s.

Definition OP_8xyE (s : Chip8) : option Chip8 :=
  let Vx := u8 (Vx_of s) in
  vx ← reg s Vx;
  s ← set_reg 0xF (u8 (Z.shiftr (Z.land vx 0x80) 7)) s;
  vx ← reg s Vx;
  set_reg Vx (u8 (Z.shiftl vx 1)) s.

Definition OP_9xy0 (s : Chip8) : option Chip8 :=
  let Vx := u8 (Vx_of s) in
  let Vy := u8 (Vy_of s) in
  vx ← reg s Vx;
  vy ← reg s Vy;
  Some (if decide (vx ≠ vy) then set_pc (u16 (pc s + 2)) s else s).

(** The local [address] is declared [uint8_t] here (it is [uint16_t] in
    [OP_1nnn], [OP_2nnn] and [OP_Bnnn]), so the field is cut to 8 bits. *)
Definition OP_Annn (s : Chip8) : option Chip8 :=
  let address := u8 (address_of s) in
  Some (set_index address s).

Definition OP_Bnnn (s : Chip8) : option Chip8 :=
  let address := u16 (address_of s) in
  v0 ← reg s 0;
  Some (set_pc (u16 (v0 + address)) s).

Definition OP_Cxkk (s : Chip8) : option Chip8 :=
  let Vx := u8 (Vx_of s) in
  let byte := u8 (byte_of s) in
  let r := u8 (randGen s O) in
  let s := set_randGen (λ n, randGen s (S n)) s in
  set_reg Vx (u8 (Z.land r byte)) s.

(** One iteration of the inner loop of [OP_Dxyn]: the pixel of column [col]
    of the sprite row [row].  There is no wrap in [screenPixel].  The
    address [&video[...]] is formed for every column, before the sprite bit
    is tested, which is undefined past the end of the array; the pixel is
    read and written only when the sprite bit is set. *)
Definition draw_pixel (xPos yPos row spriteByte col : Z) (s : Chip8)
    : option Chip8 :=
  let spritePixel := u8 (Z.land spriteByte (Z.shiftr 0x80 col)) in
  let screenPixel := (yPos + row) * VIDEO_WIDTH + (xPos + col) in
  if decide (0 ≤ screenPixel < Z.of_nat (length (video s))) then
    if decide (spritePixel ≠ 0) then
      px ← load (video s) screenPixel;
      s ← (if decide (px = 0xFFFFFFFF) then set_reg 0xF 1 s else Some s);
      px ← load (video s) screenPixel;
      v ← store (video s) screenPixel (Z.lxor px 0xFFFFFFFF);
      Some (set_video v s)
    else Some s
  else None.

(** One iteration of the outer loop of [OP_Dxyn]. *)
Definition draw_row (xPos yPos row : Z) (s : Chip8) : option Chip8 :=
  spriteByte ← load (memory s) (index s + row);
  for_loop 8 0 (draw_pixel xPos yPos row spriteByte) s.

Definition OP_Dxyn (s : Chip8) : option Chip8 :=
  let Vx := u8 (Vx_of s) in
  let Vy := u8 (Vy_of s) in
  let height := u8 (Z.land (opcode s) 0x000F) in
  vx ← reg s Vx;
  let xPos := u8 (vx mod VIDEO_WIDTH) in
  vy ← reg s Vy;
  let yPos := u8 (vy mod VIDEO_HEIGHT) in
  s ← set_reg 0xF 0 s;
  for_loop (Z.to_nat height) 0 (draw_row xPos yPos) s.

Definition OP_Ex9E (s : Chip8) : option Chip8 :=
  let Vx := u8 (Vx_of s) in
  key ← reg s Vx;
  k ← load (keypad s) key;
  Some (if decide (k ≠ 0) then set_pc (u16 (pc s + 2)) s else s).

Definition OP_ExA1 (s : Chip8) : option Chip8 :=
  let Vx := u8 (Vx_of s) in
  key ← reg s Vx;
  k ← load (keypad s) key;
  Some (if decide (k = 0) then set_pc (u16 (pc s + 2)) s else s).

Definition OP_Fx07 (s : Chip8) : option Chip8 :=
  let Vx := u8 (Vx_of s) in
  set_reg Vx (delayTimer s) s.

(** The body of the key scan of [OP_Fx0A]; the loop carries the machine
    state and the local [keyPress]. *)
Definition scan_key (Vx i : Z) (a : Chip8 * bool) : option (Chip8 * bool) :=
  k ← load (keypad a.1) i;
  if decide (k ≠ 0) then
    s ← set_reg Vx (u8 i) a.1; Some (s, true)
  else Some a.

Definition OP_Fx0A (s : Chip8) : option Chip8 :=
  let Vx := u8 (Vx_of s) in
  r ← for_loop 16 0 (scan_key Vx) (s, false);
  let s : Chip8 := r.1 in
  let keyPress : bool := r.2 in
  Some (if keyPress then s else set_pc (u16 (pc s - 2)) s).

Definition OP_Fx15 (s : Chip8) : option Chip8 :=
  let Vx := u8 (Vx_of s) in
  vx ← reg s Vx;
  Some (set_delayTimer vx s).

Definition OP_Fx18 (s : Chip8) : option Chip8 :=
  let Vx := u8 (Vx_of s) in
  vx ← reg s Vx;
  Some (set_soundTimer vx s).

Definition OP_Fx1E (s : Chip8) : option Chip8 :=
  let Vx := u8 (Vx_of s) in
  vx ← reg s Vx;
  Some (set_index (u16 (index s + vx)) s).

Definition OP_Fx29 (s : Chip8) : option Chip8 :=
  let Vx := u8 (Vx_of s) in
  digit ← reg s Vx;
  Some (set_index (u16 (FONT_START_ADDRESS + 5 * digit)) s).

Definition OP_Fx33 (s : Chip8) : option Chip8 :=
  let Vx := u8 (Vx_of s) in
  value ← reg s Vx;
  s ← set_mem (index s + 2) (u8 (value mod 10)) s;
  let value := u8 (value / 10) in
  s ← set_mem (index s + 1) (u8 (value mod 10)) s;
  let value := u8 (value / 10) in
  set_mem (index s) (u8 (value mod 10)) s.

(** The loop bodies of [OP_Fx55] and [OP_Fx65]. *)
Definition store_register (i : Z) (s : Chip8) : option Chip8 :=
  r ← reg s i; set_mem (index s + i) r s.

Definition load_register (i : Z) (s : Chip8) : option Chip8 :=
  m ← load (memory s) (index s + i); set_reg i m s.

(** [for (uint8_t i = 0; i <= Vx; ++i)] runs [Vx + 1] times, [Vx] being at
    most 15. *)
Definition OP_Fx55 (s : Chip8) : option Chip8 :=
  let Vx := u8 (Vx_of s) in
  for_loop (Z.to_nat (Vx + 1)) 0 store_register s.

Definition OP_Fx65 (s : Chip8) : option Chip8 :=
  let Vx := u8 (Vx_of s) in
  for_loop (Z.to_nat (Vx + 1)) 0 load_register s.

(** ** Dispatch

    [Chip8Func] is a pointer to a member function.  [Handler] names the
    instruction bodies, the only functions the constructor stores in the
    sub-tables [table0], [table8], [tableE] and [tableF]; the main [table]
    also holds the four sub-dispatchers. *)

Inductive Handler : Type :=
  | ptr_OP_NULL
  | ptr_OP_00E0 | ptr_OP_00EE | ptr_OP_1nnn | ptr_OP_2nnn | ptr_OP_3xkk
  | ptr_OP_4xkk | ptr_OP_5xy0 | ptr_OP_6xkk | ptr_OP_7xkk | ptr_OP_8xy0
  | ptr_OP_8xy1 | ptr_OP_8xy2 | ptr_OP_8xy3 | ptr_OP_8xy4 | ptr_OP_8xy5
  | ptr_OP_8xy6 | ptr_OP_8xy7 | ptr_OP_8xyE | ptr_OP_9xy0 | ptr_OP_Annn
  | ptr_OP_Bnnn | ptr_OP_Cxkk | ptr_OP_Dxyn | ptr_OP_Ex9E | ptr_OP_ExA1
  | ptr_OP_Fx07 | ptr_OP_Fx0A | ptr_OP_Fx15 | ptr_OP_Fx18 | ptr_OP_Fx1E
  | ptr_OP_Fx29 | ptr_OP_Fx33 | ptr_OP_Fx55 | ptr_OP_Fx65.

Inductive Chip8Func : Type :=
  | Op (h : Handler)
  | ptr_Table0 | ptr_Table8 | ptr_TableE | ptr_TableF.

(** A call through a pointer to an instruction body. *)
Definition run (h : Handler) : Chip8 → option Chip8 :=
  match h with
  | ptr_OP_NULL => OP_NULL
  | ptr_OP_00E0 => OP_00E0 | ptr_OP_00EE => OP_00EE | ptr_OP_1nnn => OP_1nnn
  | ptr_OP_2nnn => OP_2nnn | ptr_OP_3xkk => OP_3xkk | ptr_OP_4xkk => OP_4xkk
  | ptr_OP_5xy0 => OP_5xy0 | ptr_OP_6xkk => OP_6xkk | ptr_OP_7xkk => OP_7xkk
  | ptr_OP_8xy0 => OP_8xy0 | ptr_OP_8xy1 => OP_8xy1 | ptr_OP_8xy2 => OP_8xy2
  | ptr_OP_8xy3 => OP_8xy3 | ptr_OP_8xy4 => OP_8xy4 | ptr_OP_8xy5 => OP_8xy5
  | ptr_OP_8xy6 => OP_8xy6 | ptr_OP_8xy7 => OP_8xy7 | ptr_OP_8xyE => OP_8xyE
  | ptr_OP_9xy0 => OP_9xy0 | ptr_OP_Annn => OP_Annn | ptr_OP_Bnnn => OP_Bnnn
  | ptr_OP_Cxkk => OP_Cxkk | ptr_OP_Dxyn => OP_Dxyn | ptr_OP_Ex9E => OP_Ex9E
  | ptr_OP_ExA1 => OP_ExA1 | ptr_OP_Fx07 => OP_Fx07 | ptr_OP_Fx0A => OP_Fx0A
  | ptr_OP_Fx15 => OP_Fx15 | ptr_OP_Fx18 => OP_Fx18 | ptr_OP_Fx1E => OP_Fx1E
  | ptr_OP_Fx29 => OP_Fx29 | ptr_OP_Fx33 => OP_Fx33 | ptr_OP_Fx55 => OP_Fx55
  | ptr_OP_Fx65 => OP_Fx65
  end.

(** The tables as the constructor leaves them.  [table0], [table8] and
    [tableE] are declared with [0xE + 1] entries and [tableF] with
    [0x65 + 1]; the constructor fills them with [OP_NULL] and then assigns
    the defined instructions. *)

Definition table : list Chip8Func :=
  [ ptr_Table0; Op ptr_OP_1nnn; Op ptr_OP_2nnn; Op ptr_OP_3xkk;
    Op ptr_OP_4xkk; Op ptr_OP_5xy0; Op ptr_OP_6xkk; Op ptr_OP_7xkk;
    ptr_Table8; Op ptr_OP_9xy0; Op ptr_OP_Annn; Op ptr_OP_Bnnn;
    Op ptr_OP_Cxkk; Op ptr_OP_Dxyn; ptr_TableE; ptr_TableF ].

Definition table0 : list Handler :=
  <[0xE%nat := ptr_OP_00EE]> (<[0x0%nat := ptr_OP_00E0]>
    (replicate (0xE + 1) ptr_OP_NULL)).

Definition table8 : list Handler :=
  <[0xE%nat := ptr_OP_8xyE]> (<[0x7%nat := ptr_OP_8xy7]>
  (<[0x6%nat := ptr_OP_8xy6]> (<[0x5%nat := ptr_OP_8xy5]>
  (<[0x4%nat := ptr_OP_8xy4]> (<[0x3%nat := ptr_OP_8xy3]>
  (<[0x2%nat := ptr_OP_8xy2]> (<[0x1%nat := ptr_OP_8xy1]>
  (<[0x0%nat := ptr_OP_8xy0]> (replicate (0xE + 1) ptr_OP_NULL))))))))).

Definition tableE : list Handler :=
  <[0xE%nat := ptr_OP_Ex9E]> (<[0x1%nat := ptr_OP_ExA1]>
    (replicate (0xE + 1) ptr_OP_NULL)).

Definition tableF : list Handler :=
  <[0x65%nat := ptr_OP_Fx65]> (<[0x55%nat := ptr_OP_Fx55]>
  (<[0x33%nat := ptr_OP_Fx33]> (<[0x29%nat := ptr_OP_Fx29]>
  (<[0x1E%nat := ptr_OP_Fx1E]> (<[0x18%nat := ptr_OP_Fx18]>
  (<[0x15%nat := ptr_OP_Fx15]> (<[0x0A%nat := ptr_OP_Fx0A]>
  (<[0x07%nat := ptr_OP_Fx07]> (replicate (0x65 + 1) ptr_OP_NULL))))))))).

(** [t[i]] for a table of function pointers; outside the table the read
    is undefined. *)
Definition entry {A : Type} (t : list A) (i : Z) : option A :=
  if decide (0 ≤ i) then t !! Z.to_nat i else None.

Definition Table0 (s : Chip8) : option Chip8 :=
  h ← entry table0 (Z.land (opcode s) 0x000F); run h s.

Definition Table8 (s : Chip8) : option Chip8 :=
  h ← entry table8 (Z.land (opcode s) 0x000F); run h s.

Definition TableE (s : Chip8) : option Chip8 :=
  h ← entry tableE (Z.land (opcode s) 0x000F); run h s.

Definition TableF (s : Chip8) : option Chip8 :=
  h ← entry tableF (Z.land (opcode s) 0x00FF); run h s.

(** A call through any entry of the main table. *)
Definition call (f : Chip8Func) : Chip8 → option Chip8 :=
  match f with
  | Op h => run h
  | ptr_Table0 => Table0
  | ptr_Table8 => Table8
  | ptr_TableE => TableE
  | ptr_TableF => TableF
  end.

(** The decode-and-execute statement of [Cycle]. *)
Definition dispatch (s : Chip8) : option Chip8 :=
  f ← entry table (Z.shiftr (Z.land (opcode s) 0xF000) 12); call f s.

(** The timer update at the end of [Cycle]. *)
Definition update_timers (s : Chip8) : Chip8 :=
  let s := if decide (delayTimer s > 0)
           then set_delayTimer (u8 (delayTimer s - 1)) s else s in
  if decide (soundTimer s > 0)
  then set_soundTimer (u8 (soundTimer s - 1)) s else s.

Definition Cycle (s : Chip8) : option Chip8 :=
  hi ← load (memory s) (pc s);
  lo ← load (memory s) (pc s + 1);
  let s := set_opcode (u16 (Z.lor (Z.shiftl hi 8) lo)) s in
  let s := set_pc (u16 (pc s + 2)) s in
  s ← dispatch s;
  Some (update_timers s).

(** [n] calls of [Cycle] in a row, as the driving loop makes them. *)
Fixpoint Cycles (n : nat) (s : Chip8) : option Chip8 :=
  match n with
  | O => Some s
  | S n' => s' ← Cycle s; Cycles n' s'
  end.

(** ** Construction and program loading *)

(** The constructor: every member is zero-initialised, [pc] is set to the
    start address and the font is copied to its zone.  [seed] is the byte
    stream of the freshly seeded random engine. *)
Definition Chip8_new (seed : nat → Z) : Chip8 :=
  let memory0 :=
    foldl (λ m i, <[Z.to_nat (FONT_START_ADDRESS + Z.of_nat i) := fontset !!! i]> m)
      (replicate 4096 0) (seq 0 (Z.to_nat FRONT_SIZE)) in
  mkChip8 (replicate 16 0) memory0 0 START_ADDRESS (replicate 16 0) 0 0 0
    (replicate 16 0) (replicate (64 * 32) 0) 0 seed.

(** [LoadROM], given the bytes of the file ([None] when it cannot be
    opened). *)
Definition LoadROM (file : option (list Z)) (s : Chip8) : option Chip8 :=
  match file with
  | Some buffer =>
      for_loop (length buffer) 0
        (λ i s, b ← load buffer i; set_mem (START_ADDRESS + i) (u8 b) s) s
  | None => Some s
  end.

(** ** Representable states

    Every member holds a value of its declared C++ type. *)

Record valid (s : Chip8) : Prop := mkValid {
  valid_registers_length : length (registers s) = 16%nat;
  valid_registers : Forall is_u8 (registers s);
  valid_memory_length : length (memory s) = 4096%nat;
  valid_memory : Forall is_u8 (memory s);
  valid_index : is_u16 (index s);
  valid_pc : is_u16 (pc s);
  valid_stack_length : length (stack s) = 16%nat;
  valid_stack : Forall is_u16 (stack s);
  valid_sp : is_u8 (sp s);
  valid_delayTimer : is_u8 (delayTimer s);
  valid_soundTimer : is_u8 (soundTimer s);
  valid_keypad_length : length (keypad s) = 16%nat;
  valid_keypad : Forall is_u8 (keypad s);
  valid_video_length : length (video s) = 2048%nat
}.

Definition is_u8b (z : Z) : bool := (0 <=? z) && (z <? 256).
Definition is_u16b (z : Z) : bool := (0 <=? z) && (z <? 65536).

(** The executable form of [valid]. *)
Definition validb (s : Chip8) : bool :=
  (length (registers s) =? 16)%nat && forallb is_u8b (registers s) &&
  (length (memory s) =? 4096)%nat && forallb is_u8b (memory s) &&
  is_u16b (index s) && is_u16b (pc s) &&
  (length (stack s) =? 16)%nat && forallb is_u16b (stack s) &&
  is_u8b (sp s) && is_u8b (delayTimer s) && is_u8b (soundTimer s) &&
  (length (keypad s) =? 16)%nat && forallb is_u8b (keypad s) &&
  (length (video s) =? 2048)%nat.

(** ** Decoding and fetching on their own *)

(** The family of an instruction word: its top four bits. *)
Definition family (op : Z) : Z := Z.shiftr (Z.land op 0xF000) 12.

(** The handler an instruction word resolves to: the two table lookups of
    [dispatch] without the call. *)
Definition decode (op : Z) : option Handler :=
  f ← entry table (Z.shiftr (Z.land op 0xF000) 12);
  match f with
  | Op h => Some h
  | ptr_Table0 => entry table0 (Z.land op 0x000F)
  | ptr_Table8 => entry table8 (Z.land op 0x000F)
  | ptr_TableE => entry tableE (Z.land op 0x000F)
  | ptr_TableF => entry tableF (Z.land op 0x00FF)
  end.

(** The instruction word [Cycle] fetches: the big-endian pair of bytes at
    the program counter. *)
Definition fetch (s : Chip8) : option Z :=
  hi ← load (memory s) (pc s);
  lo ← load (memory s) (pc s + 1);
  Some (u16 (Z.lor (Z.shiftl hi 8) lo)).

(** ** The properties, as the specification words them

    Each predicate is about the state [s] in which the instruction runs;
    its register operands are the fields of [opcode s]. *)

(** load-index: the index register receives the 12-bit address field. *)
Definition load_index_spec (s : Chip8) : Prop :=
  index <$> OP_Annn s = Some (Z.land (opcode s) 0xFFF).

(** add-reg: flag [reg[15]] is 1 iff the sum exceeds 255, and [reg[x]] is
    the sum modulo 256, for [a], [b] the operands in the pre-state. *)
Definition add_reg_spec (s : Chip8) : Prop :=
  ∀ a b, reg s (Vx_of s) = Some a → reg s (Vy_of s) = Some b →
    ∃ s', OP_8xy4 s = Some s' ∧
      (reg s' 0xF = Some 1 ↔ a + b > 255) ∧
      reg s' (Vx_of s) = Some ((a + b) mod 256).

(** shift-right: [reg[15]] is the least-significant bit of the original
    [reg[x]], and [reg[x]] the original value shifted right by one. *)
Definition shift_right_spec (s : Chip8) : Prop :=
  ∀ v, reg s (Vx_of s) = Some v →
    ∃ s', OP_8xy6 s = Some s' ∧
      reg s' 0xF = Some (v mod 2) ∧
      reg s' (Vx_of s) = Some (v / 2).

(** shift-left: [reg[15]] is the most-significant bit of the original
    [reg[x]], and [reg[x]] the original value shifted left by one, modulo
    256. *)
Definition shift_left_spec (s : Chip8) : Prop :=
  ∀ v, reg s (Vx_of s) = Some v →
    ∃ s', OP_8xyE s = Some s' ∧
      reg s' 0xF = Some (v / 128) ∧
      reg s' (Vx_of s) = Some ((2 * v) mod 256).

(** store-bcd: hundreds, tens and ones digit of [reg[x]] at [index],
    [index + 1] and [index + 2]. *)
Definition store_bcd_spec (s : Chip8) : Prop :=
  ∀ v, reg s (Vx_of s) = Some v →
    ∃ s', OP_Fx33 s = Some s' ∧
      load (memory s') (index s) = Some (v / 100 mod 10) ∧
      load (memory s') (index s + 1) = Some (v / 10 mod 10) ∧
      load (memory s') (index s + 2) = Some (v mod 10).

(** A 12-bit address. *)
Definition is_addr (z : Z) : Prop := 0 ≤ z ≤ 0xFFF.

(** jump-offset assigns the program counter a value within 12 bits. *)
Definition jump_offset_masked_spec (s : Chip8) : Prop :=
  ∀ s', OP_Bnnn s = Some s' → is_addr (pc s').

(** wait-key takes the lowest pressed key, the first one a scan from key 0
    detects: on a state whose next instruction is wait-key with register
    [x], if [k] is the lowest key that is pressed, one [Cycle] advances the
    program counter once and leaves [k] in [reg[x]]. *)
Definition wait_key_lowest_spec (s : Chip8) (x : Z) : Prop :=
  ∀ k v, 0 ≤ k < 16 → load (keypad s) k = Some v → v ≠ 0 →
    (∀ j, 0 ≤ j < k → load (keypad s) j = Some 0) →
    ∃ s', Cycle s = Some s' ∧ pc s' = pc s + 2 ∧ reg s' x = Some k.

(** The pixel a sprite bit toggles according to the specification: both
    coordinates wrap on their own. *)
Definition wrapped_pixel (x y row col : Z) : Z :=
  ((y + row) mod VIDEO_HEIGHT) * VIDEO_WIDTH + ((x + col) mod VIDEO_WIDTH).

(** The pixels of [video] that are on (all bits set). *)
Definition pixels_on (v : list Z) : list Z :=
  filter (λ i, v !! Z.to_nat i = Some 0xFFFFFFFF) (seqZ 0 (Z.of_nat (length v))).

(** Registers 0 to [x] set to zero, the others kept. *)
Definition zero_registers (x : Z) (s : Chip8) : Chip8 :=
  set_registers
    (replicate (Z.to_nat (x + 1)) 0 ++ drop (Z.to_nat (x + 1)) (registers s)) s.

(** ** Concrete states and programs *)

(** A freshly constructed machine whose random engine only yields 0. *)
Definition fresh : Chip8 := Chip8_new (λ _, 0).

(** [s] with [registers[i] = v]. *)
Definition with_reg (i : nat) (v : Z) (s : Chip8) : Chip8 :=
  set_registers (<[i := v]> (registers s)) s.

(** [s] with [memory[a] = v]. *)
Definition with_mem (a : nat) (v : Z) (s : Chip8) : Chip8 :=
  set_memory (<[a := v]> (memory s)) s.

(** [s] with [keypad[k] = v], as the input collaborator writes it. *)
Definition with_key (k : nat) (v : Z) (s : Chip8) : Chip8 :=
  set_keypad (<[k := v]> (keypad s)) s.

(** Registers 0 and 1 hold 200 and 100, and the instruction word is add-reg
    with x = 0, y = 1 (0x8014). *)
Definition add_reg_state : Chip8 :=
  set_opcode 0x8014 (with_reg 0 200 (with_reg 1 100 fresh)).

(** Register 15 holds 1, and the instruction word is add-reg with x = 15,
    y = 0 (0x8F04). *)
Definition add_reg_flag_state : Chip8 :=
  set_opcode 0x8F04 (with_reg 15 1 fresh).

(** Register 2 holds 0x85; the instruction word has x = 2. *)
Definition shift_state : Chip8 :=
  set_opcode 0x8206 (with_reg 2 0x85 fresh).

(** Register 15 holds 3, and the instruction word is shift-right with
    x = 15 (0x8F06). *)
Definition shift_flag_state : Chip8 :=
  set_opcode 0x8F06 (with_reg 15 3 fresh).

(** Register 3 holds 137 and the index register 0x300; the instruction
    word is store-bcd with x = 3 (0xF333). *)
Definition bcd_state : Chip8 :=
  set_opcode 0xF333 (set_index 0x300 (with_reg 3 137 fresh)).

(** Register 0 holds 0xFF; the instruction word is jump-offset with the
    address field 0xFFF (0xBFFF). *)
Definition jump_offset_state : Chip8 :=
  set_opcode 0xBFFF (with_reg 0 0xFF fresh).

(** The index register holds 0xFFF, the last address of memory; the
    instruction word is [op]. *)
Definition high_index_state (op : Z) : Chip8 :=
  set_opcode op (set_index 0xFFF fresh).

(** The two-byte program jump 0xFFF (0x1FFF). *)
Definition jump_to_end_program : list Z := [0x1F; 0xFF].

(** Registers 0 to 15 hold 0x11, 0x22, ..., the index register 0x400; the
    instruction word is store-registers with x = 3 (0xF355). *)
Definition block_state : Chip8 :=
  set_opcode 0xF355 (set_index 0x400
    (set_registers [0x11; 0x22; 0x33; 0x44; 0x55; 0x66; 0x77; 0x88;
                    0x99; 0xAA; 0xBB; 0xCC; 0xDD; 0xEE; 0xFF; 0x01] fresh)).

(** The program at the start address is wait-key with x = 3 (0xF30A). *)
Definition wait_key_state : Chip8 :=
  with_mem 0x200 0xF3 (with_mem 0x201 0x0A fresh).

(** The same with keys 1 and 2 pressed. *)
Definition two_keys_state : Chip8 :=
  with_key 1 1 (with_key 2 1 wait_key_state).

(** Registers 0 and 1 hold the coordinates [x] and [y], memory holds the
    sprite row 0xFF at 0x300, the index register is 0x300; the instruction
    word draws the 8x1 sprite at ([reg[0]], [reg[1]]) (0xD011). *)
Definition sprite_state (x y : Z) : Chip8 :=
  set_opcode 0xD011 (set_index 0x300
    (with_mem 0x300 0xFF (with_reg 0 x (with_reg 1 y fresh)))).

(** The three-instruction program of the specification's end-to-end
    property: load-imm reg0 = 5, load-imm reg1 = 3, add-reg reg0 += reg1. *)
Definition add_program : list Z := [0x60; 0x05; 0x61; 0x03; 0x80; 0x14].

(** call 0x300 at the start address and return at 0x300. *)
Definition call_program : list Z :=
  [0x23; 0x00] ++ replicate 254 0 ++ [0x00; 0xEE].

(** * Properties *)

(** Division and remainder by constants are left to [lia]. *)
Ltac Zify.zify_post_hook ::= Z.to_euclidean_division_equations.

(** ** Arrays *)

Section arrays.
Implicit Types (a : list Z) (i j v : Z).

Lemma load_lt a i : 0 ≤ i < Z.of_nat (length a) → is_Some (load a i).
Proof.
  intros Hi. unfold load. rewrite decide_True by lia.
  apply lookup_lt_is_Some. lia.
Qed.

Lemma load_Some_lt a i v : load a i = Some v → 0 ≤ i < Z.of_nat (length a).
Proof.
  unfold load. case_decide; [|done].
  intros Hl%lookup_lt_Some. lia.
Qed.

Lemma store_lt a i v :
  0 ≤ i < Z.of_nat (length a) → store a i v = Some (<[Z.to_nat i := v]> a).
Proof. intros Hi. unfold store. by rewrite decide_True. Qed.

Lemma load_insert_eq a (n : nat) v j :
  j = Z.of_nat n → (n < length a)%nat → load (<[n := v]> a) j = Some v.
Proof.
  intros -> Hn. unfold load. rewrite decide_True, Nat2Z.id by lia.
  by apply list_lookup_insert_eq.
Qed.

Lemma load_insert_ne a (n : nat) v j :
  j ≠ Z.of_nat n → load (<[n := v]> a) j = load a j.
Proof.
  intros Hne. unfold load. case_decide; [|done].
  apply list_lookup_insert_ne. lia.
Qed.

Lemma load_Forall (P : Z → Prop) a i v :
  load a i = Some v → Forall P a → P v.
Proof.
  unfold load. case_decide; [|done]. intros Hl Ha.
  by eapply Forall_lookup_1.
Qed.
End arrays.

(** ** Operand fields *)

Lemma Vx_of_range s : 0 ≤ Vx_of s < 16.
Proof.
  unfold Vx_of. rewrite Z.shiftr_land. change (Z.shiftr 0x0F00 8) with (Z.ones 4).
  rewrite Z.land_ones by lia. apply Z.mod_pos_bound. lia.
Qed.

Lemma Vy_of_range s : 0 ≤ Vy_of s < 16.
Proof.
  unfold Vy_of. rewrite Z.shiftr_land. change (Z.shiftr 0x00F0 4) with (Z.ones 4).
  rewrite Z.land_ones by lia. apply Z.mod_pos_bound. lia.
Qed.

Lemma address_of_range s : 0 ≤ address_of s < 4096.
Proof.
  unfold address_of. change 0x0FFF with (Z.ones 12).
  rewrite Z.land_ones by lia. apply Z.mod_pos_bound. lia.
Qed.

Lemma u8_id z : 0 ≤ z < 256 → u8 z = z.
Proof. intros. unfold u8. by apply Z.mod_small. Qed.

Lemma u16_id z : 0 ≤ z < 65536 → u16 z = z.
Proof. intros. unfold u16. by apply Z.mod_small. Qed.

Lemma u8_Vx_of s : u8 (Vx_of s) = Vx_of s.
Proof. apply u8_id. pose proof (Vx_of_range s). lia. Qed.

Lemma u8_Vy_of s : u8 (Vy_of s) = Vy_of s.
Proof. apply u8_id. pose proof (Vy_of_range s). lia. Qed.

(** ** Registers and memory of a state *)

Section state.
Implicit Types (s : Chip8) (i j v : Z).

Lemma set_reg_lt s i v :
  0 ≤ i < Z.of_nat (length (registers s)) →
  set_reg i v s = Some (set_registers (<[Z.to_nat i := v]> (registers s)) s).
Proof. intros Hi. unfold set_reg. by rewrite store_lt. Qed.

Lemma set_mem_lt s i v :
  0 ≤ i < Z.of_nat (length (memory s)) →
  set_mem i v s = Some (set_memory (<[Z.to_nat i := v]> (memory s)) s).
Proof. intros Hi. unfold set_mem. by rewrite store_lt. Qed.

Lemma set_reg_valid s i v :
  valid s → 0 ≤ i < 16 →
  set_reg i v s = Some (set_registers (<[Z.to_nat i := v]> (registers s)) s).
Proof. intros Hs Hi. apply set_reg_lt. rewrite (valid_registers_length s Hs). lia. Qed.

Lemma reg_set_registers s (l : list Z) j : reg (set_registers l s) j = load l j.
Proof. reflexivity. Qed.

Lemma reg_is_u8 s i v : valid s → reg s i = Some v → 0 ≤ v < 256.
Proof. intros Hs Hv. eapply (load_Forall is_u8); [done|]. by destruct Hs. Qed.

Lemma reg_valid s i : valid s → 0 ≤ i < 16 → is_Some (reg s i).
Proof.
  intros Hs Hi. apply load_lt. rewrite (valid_registers_length s Hs). lia.
Qed.
End state.

Lemma validb_valid s : validb s = true → valid s.
Proof.
  unfold validb. rewrite !andb_true_iff.
  intros [[[[[[[[[[[[[H1 H2] H3] H4] H5] H6] H7] H8] H9] H10] H11] H12] H13] H14].
  assert (Hu8 : ∀ z, is_u8b z = true → is_u8 z).
  { intros z. unfold is_u8b, is_u8. rewrite andb_true_iff. lia. }
  assert (Hu16 : ∀ z, is_u16b z = true → is_u16 z).
  { intros z. unfold is_u16b, is_u16. rewrite andb_true_iff. lia. }
  assert (Hall : ∀ (P : Z → Prop) f l,
             (∀ z, f z = true → P z) → forallb f l = true → Forall P l).
  { intros P f l Hf Hl. apply Forall_forall. intros z Hz.
    apply Hf. rewrite forallb_forall in Hl. apply Hl. by apply list_elem_of_In. }
  split; eauto using Nat.eqb_eq; by apply Nat.eqb_eq.
Qed.

Lemma fresh_valid : valid fresh.
Proof. apply validb_valid. vm_compute. reflexivity. Qed.

(** ** load-index *)

(** C1, as the code has it: the address field passes through an 8-bit
    local, so load-index leaves only its low byte in the index register.
    For the word 0xA123 the index becomes 0x23, not 0x123. *)
Theorem OP_Annn_keeps_low_byte_only (s : Chip8) :
  index <$> OP_Annn s = Some (Z.land (opcode s) 0xFF) ∧
  index <$> OP_Annn (set_opcode 0xA123 s) = Some 0x23 ∧
  ¬ load_index_spec (set_opcode 0xA123 s).
Proof.
  split; [|split].
  - unfold OP_Annn, address_of, u8; simpl. f_equal.
    change 256 with (2 ^ 8). rewrite <- Z.land_ones by lia.
    rewrite <- Z.land_assoc. reflexivity.
  - reflexivity.
  - unfold load_index_spec. simpl. intros [=].
Qed.

(** ** add-reg *)

Lemma land_0xFF z : Z.land z 0xFF = z mod 256.
Proof. change 0xFF with (Z.ones 8). by rewrite Z.land_ones. Qed.

Lemma OP_8xy4_result s a b :
  valid s → reg s (Vx_of s) = Some a → reg s (Vy_of s) = Some b →
  OP_8xy4 s =
    Some (set_registers
            (<[Z.to_nat (Vx_of s) := (a + b) mod 256]>
               (<[15%nat := if decide (a + b > 255) then 1 else 0]> (registers s))) s).
Proof.
  intros Hs Ha Hb.
  pose proof (reg_is_u8 _ _ _ Hs Ha). pose proof (reg_is_u8 _ _ _ Hs Hb).
  pose proof (Vx_of_range s) as Hx.
  unfold OP_8xy4. rewrite u8_Vx_of, u8_Vy_of, Ha, Hb. simpl.
  rewrite (u16_id (a + b)) by lia.
  rewrite set_reg_valid by (done || lia). simpl.
  rewrite set_reg_lt; simpl.
  - rewrite land_0xFF. unfold u8. rewrite Z.mod_mod by lia. reflexivity.
  - rewrite length_insert, (valid_registers_length s Hs). lia.
Qed.

(** C7 (amended): add-reg leaves [(a + b) mod 256] in [reg[x]] for every
    register pair; when x is not 15 it leaves the carry in [reg[15]]: 1 if
    [a + b > 255] and 0 otherwise.  When x is 15 the sum is written after
    the flag and replaces it. *)
Theorem OP_8xy4_sum_and_carry (s : Chip8) :
  valid s →
  (Vx_of s ≠ 0xF → add_reg_spec s) ∧
  (∀ a b, reg s (Vx_of s) = Some a → reg s (Vy_of s) = Some b →
     ∃ s', OP_8xy4 s = Some s' ∧
       reg s' (Vx_of s) = Some ((a + b) mod 256) ∧
       (Vx_of s ≠ 0xF →
          reg s' 0xF = Some (if decide (a + b > 255) then 1 else 0))).
Proof.
  intros Hs. pose proof (Vx_of_range s) as Hx.
  pose proof (valid_registers_length s Hs) as Hlen.
  assert (Hsum : ∀ a b, reg s (Vx_of s) = Some a → reg s (Vy_of s) = Some b →
            ∃ s', OP_8xy4 s = Some s' ∧
              reg s' (Vx_of s) = Some ((a + b) mod 256) ∧
              (Vx_of s ≠ 0xF →
                 reg s' 0xF = Some (if decide (a + b > 255) then 1 else 0))).
  { intros a b Ha Hb. eexists. split; [by apply OP_8xy4_result|].
    rewrite !reg_set_registers. split.
    - apply load_insert_eq; [lia|]. rewrite length_insert. lia.
    - intros Hne. rewrite load_insert_ne by lia.
      by rewrite load_insert_eq by lia. }
  split; [|done].
  intros Hne a b Ha Hb.
  destruct (Hsum a b Ha Hb) as (s' & Hrun & Hres & Hflag).
  exists s'. split; [done|]. split; [|done].
  rewrite (Hflag Hne). case_decide; split; (done || lia || intros [=]; lia).
Qed.

(** The amended add-reg property at registers 200 and 100: the sum 300
    leaves 44 in [reg[0]] and sets the flag. *)
Lemma OP_8xy4_sum_and_carry_witness :
  ∃ s', OP_8xy4 add_reg_state = Some s' ∧
    (reg s' 0xF = Some 1 ↔ 200 + 100 > 255) ∧ reg s' 0 = Some 44.
Proof.
  assert (Hv : valid add_reg_state) by (apply validb_valid; vm_compute; reflexivity).
  destruct (OP_8xy4_sum_and_carry add_reg_state Hv) as [Hspec _].
  apply (Hspec ltac:(vm_compute; discriminate) 200 100); reflexivity.
Defined.

(** C7, as stated, fails when x is 15: with [reg[15] = 1] and [reg[0] = 0]
    the sum 1 has no carry, yet [reg[15]] is 1 afterwards. *)
Lemma OP_8xy4_flag_overwritten : ¬ add_reg_spec add_reg_flag_state.
Proof.
  intros Hspec. destruct (Hspec 1 0) as (s' & Hrun & Hflag & _); [done..|].
  vm_compute in Hrun. injection Hrun as <-.
  assert (H1 : 1 + 0 > 255) by (apply Hflag; reflexivity). lia.
Qed.

(** ** shift-right and shift-left *)

Lemma bind_Some {A B} (f : A → option B) (x : A) : Some x ≫= f = f x.
Proof. reflexivity. Qed.

Lemma OP_8xy6_result s v :
  valid s → reg s (Vx_of s) = Some v →
  OP_8xy6 s =
    Some (set_registers
            (<[Z.to_nat (Vx_of s) := if decide (Vx_of s = 0xF) then 0 else v / 2]>
               (<[15%nat := v mod 2]> (registers s))) s).
Proof.
  intros Hs Hv. pose proof (reg_is_u8 _ _ _ Hs Hv) as Hr.
  pose proof (Vx_of_range s) as Hx.
  pose proof (valid_registers_length s Hs) as Hlen.
  assert (Hlsb : u8 (Z.land v 1) = v mod 2).
  { change 1 with (Z.ones 1) at 1. rewrite Z.land_ones by lia.
    apply u8_id. change (2 ^ 1) with 2. lia. }
  unfold OP_8xy6. rewrite u8_Vx_of, Hv, bind_Some, Hlsb.
  rewrite set_reg_valid by (done || lia). rewrite bind_Some.
  change (Z.to_nat 15) with 15%nat. rewrite reg_set_registers.
  case_decide as Hx15.
  - rewrite load_insert_eq by lia. rewrite bind_Some.
    rewrite set_reg_lt by (simpl; rewrite length_insert; lia). simpl.
    rewrite Z.shiftr_div_pow2 by lia. change (2 ^ 1) with 2.
    rewrite (Z.div_small (v mod 2)) by lia. reflexivity.
  - rewrite load_insert_ne by lia. fold (reg s (Vx_of s)). rewrite Hv, bind_Some.
    rewrite set_reg_lt by (simpl; rewrite length_insert; lia). simpl.
    rewrite Z.shiftr_div_pow2 by lia. change (2 ^ 1) with 2.
    rewrite u8_id by lia. reflexivity.
Qed.

Lemma OP_8xyE_result s v :
  valid s → reg s (Vx_of s) = Some v →
  OP_8xyE s =
    Some (set_registers
            (<[Z.to_nat (Vx_of s) :=
                 if decide (Vx_of s = 0xF) then 2 * (v / 128) else (2 * v) mod 256]>
               (<[15%nat := v / 128]> (registers s))) s).
Proof.
  intros Hs Hv. pose proof (reg_is_u8 _ _ _ Hs Hv) as Hr.
  pose proof (Vx_of_range s) as Hx.
  pose proof (valid_registers_length s Hs) as Hlen.
  assert (Hmsb : u8 (Z.shiftr (Z.land v 0x80) 7) = v / 128).
  { rewrite Z.shiftr_land. change (Z.shiftr 0x80 7) with (Z.ones 1).
    rewrite Z.land_ones, Z.shiftr_div_pow2 by lia.
    change (2 ^ 7) with 128. change (2 ^ 1) with 2.
    assert (0 ≤ v / 128 < 2) by lia.
    rewrite (Z.mod_small (v / 128)) by lia. apply u8_id. lia. }
  unfold OP_8xyE. rewrite u8_Vx_of, Hv, bind_Some, Hmsb.
  rewrite set_reg_valid by (done || lia). rewrite bind_Some.
  change (Z.to_nat 15) with 15%nat. rewrite reg_set_registers.
  assert (0 ≤ v / 128 < 2) by lia.
  case_decide as Hx15.
  - rewrite load_insert_eq by lia. rewrite bind_Some.
    rewrite set_reg_lt by (simpl; rewrite length_insert; lia). simpl.
    rewrite Z.shiftl_mul_pow2 by lia. change (2 ^ 1) with 2.
    rewrite u8_id by lia. rewrite (Z.mul_comm _ 2). reflexivity.
  - rewrite load_insert_ne by lia. fold (reg s (Vx_of s)). rewrite Hv, bind_Some.
    rewrite set_reg_lt by (simpl; rewrite length_insert; lia). simpl.
    rewrite Z.shiftl_mul_pow2 by lia. change (2 ^ 1) with 2.
    unfold u8. rewrite (Z.mul_comm v 2). reflexivity.
Qed.

(** C6 (amended): for every register index x other than 15, shift-right
    leaves the least-significant bit of the original [reg[x]] in [reg[15]]
    and the original value shifted right by one in [reg[x]]; shift-left
    leaves the most-significant bit in [reg[15]] and the original value
    shifted left by one, modulo 256, in [reg[x]]. *)
Theorem OP_8xy6_OP_8xyE_shifted_out_bit (s : Chip8) :
  valid s → Vx_of s ≠ 0xF → shift_right_spec s ∧ shift_left_spec s.
Proof.
  intros Hs Hne. pose proof (Vx_of_range s) as Hx.
  pose proof (valid_registers_length s Hs) as Hlen.
  split; intros v Hv; eexists.
  - split; [by apply OP_8xy6_result|]. rewrite !reg_set_registers.
    rewrite decide_False by done. split.
    + rewrite load_insert_ne by lia. by rewrite load_insert_eq by lia.
    + apply load_insert_eq; [lia|]. rewrite length_insert. lia.
  - split; [by apply OP_8xyE_result|]. rewrite !reg_set_registers.
    rewrite decide_False by done. split.
    + rewrite load_insert_ne by lia. by rewrite load_insert_eq by lia.
    + apply load_insert_eq; [lia|]. rewrite length_insert. lia.
Qed.

(** With x = 15 the flag is written to [reg[15]] first and the shift then
    applies to it: [reg[15]] ends as 0 after shift-right and as twice the
    original most-significant bit after shift-left. *)
Lemma shift_of_flag_register s v :
  valid s → Vx_of s = 0xF → reg s 0xF = Some v →
  (OP_8xy6 s ≫= λ s', reg s' 0xF) = Some 0 ∧
  (OP_8xyE s ≫= λ s', reg s' 0xF) = Some (2 * (v / 128)).
Proof.
  intros Hs Heq Hv. pose proof (valid_registers_length s Hs) as Hlen.
  rewrite <- Heq in Hv.
  rewrite (OP_8xy6_result s v), (OP_8xyE_result s v) by done.
  rewrite !bind_Some, !reg_set_registers, !decide_True by done.
  split; (apply load_insert_eq; [lia|]; rewrite length_insert; lia).
Qed.

(** The amended shift property at [reg[2] = 0x85]: shift-right leaves 1 in
    [reg[15]] and 0x42 in [reg[2]]; shift-left leaves 1 and 0x0A. *)
Lemma OP_8xy6_OP_8xyE_shifted_out_bit_witness :
  (∃ s', OP_8xy6 shift_state = Some s' ∧
     reg s' 0xF = Some 1 ∧ reg s' 2 = Some 0x42) ∧
  (∃ s', OP_8xyE shift_state = Some s' ∧
     reg s' 0xF = Some 1 ∧ reg s' 2 = Some 0x0A).
Proof.
  assert (Hv : valid shift_state) by (apply validb_valid; vm_compute; reflexivity).
  destruct (OP_8xy6_OP_8xyE_shifted_out_bit shift_state Hv
              ltac:(vm_compute; discriminate)) as [Hr Hl].
  split; [apply (Hr 0x85) | apply (Hl 0x85)]; reflexivity.
Defined.

(** C6, as stated, fails when x is 15: with [reg[15] = 3] the claim asks
    for 1 in [reg[15]] (both the low bit and 3 shifted right), and the code
    leaves 0. *)
Lemma OP_8xy6_flag_register_shifted : ¬ shift_right_spec shift_flag_state.
Proof.
  intros Hspec. destruct (Hspec 3) as (s' & Hrun & Hflag & _); [done|].
  vm_compute in Hrun. injection Hrun as <-. vm_compute in Hflag. discriminate.
Qed.

(** ** store-bcd *)

(** C9: when the three bytes at [index .. index + 2] lie in memory,
    store-bcd writes the hundreds digit of [reg[x]] to [memory[index]], the
    tens digit to [memory[index + 1]] and the ones digit to
    [memory[index + 2]]. *)
Theorem OP_Fx33_decimal_digits (s : Chip8) :
  valid s → index s + 2 < 4096 → store_bcd_spec s.
Proof.
  intros Hs Hidx v Hv. pose proof (reg_is_u8 _ _ _ Hs Hv) as Hr.
  pose proof (valid_memory_length s Hs) as Hlen.
  destruct (valid_index s Hs) as [Hi0 _].
  unfold OP_Fx33. rewrite u8_Vx_of, Hv, bind_Some.
  rewrite set_mem_lt by lia. rewrite bind_Some.
  rewrite set_mem_lt by (simpl; rewrite length_insert; lia). rewrite bind_Some.
  rewrite set_mem_lt by (simpl; rewrite !length_insert; lia).
  eexists. split; [reflexivity|]. simpl. unfold u8. repeat split.
  - rewrite load_insert_eq by (rewrite ?length_insert; lia). f_equal. lia.
  - rewrite load_insert_ne by lia.
    rewrite load_insert_eq by (rewrite ?length_insert; lia). f_equal. lia.
  - rewrite !load_insert_ne by lia.
    rewrite load_insert_eq by (rewrite ?length_insert; lia). f_equal. lia.
Qed.

(** store-bcd of 137 writes 1, 3, 7. *)
Lemma OP_Fx33_decimal_digits_witness :
  ∃ s', OP_Fx33 bcd_state = Some s' ∧
    load (memory s') 0x300 = Some 1 ∧
    load (memory s') 0x301 = Some 3 ∧
    load (memory s') 0x302 = Some 7.
Proof.
  apply (OP_Fx33_decimal_digits bcd_state
           ltac:(apply validb_valid; vm_compute; reflexivity)
           ltac:(vm_compute; reflexivity) 137).
  reflexivity.
Defined.

(** ** Addresses *)

Lemma fetch_is_Some s : valid s → is_Some (fetch s) ↔ pc s + 1 < 4096.
Proof.
  intros Hs. pose proof (valid_memory_length s Hs) as Hlen.
  destruct (valid_pc s Hs) as [Hpc _]. unfold fetch. split.
  - intros [op Hop].
    destruct (load (memory s) (pc s)) as [hi|]; [|done].
    rewrite bind_Some in Hop.
    destruct (load (memory s) (pc s + 1)) as [lo|] eqn:Hlo; [|done].
    apply load_Some_lt in Hlo. lia.
  - intros Hlt.
    destruct (load_lt (memory s) (pc s)) as [hi ->]; [lia|].
    destruct (load_lt (memory s) (pc s + 1)) as [lo ->]; [lia|].
    by eexists.
Qed.

Lemma Cycle_fetch s :
  Cycle s =
    op ← fetch s;
    s' ← dispatch (set_pc (u16 (pc s + 2)) (set_opcode op s));
    Some (update_timers s').
Proof.
  unfold Cycle, fetch.
  destruct (load (memory s) (pc s)) as [hi|]; [|done].
  destruct (load (memory s) (pc s + 1)) as [lo|]; done.
Qed.

(** C5, as the code has it: the program counter and the index register
    are used as addresses with no mask.  After the two-byte program 0x1FFF
    (jump 0xFFF) the program counter is 0xFFF, and the next fetch reads
    [memory[0x1000]], past the end of memory.  jump-offset with the field
    0xFFF and [reg[0] = 0xFF] sets the program counter to 0x10FE, and
    add-to-index takes the index from 0xFFF to 0x10FE.  With the index at
    0xFFF the second sprite row, the BCD digits and the second byte of a
    register block all lie past the end of memory. *)
Theorem addresses_used_unmasked :
  pc <$> (LoadROM (Some jump_to_end_program) fresh ≫= Cycle) = Some 0xFFF ∧
  LoadROM (Some jump_to_end_program) fresh ≫= Cycles 2 = None ∧
  pc <$> OP_Bnnn jump_offset_state = Some 0x10FE ∧
  ¬ jump_offset_masked_spec jump_offset_state ∧
  index <$> OP_Fx1E (with_reg 0 0xFF (high_index_state 0xF01E)) = Some 0x10FE ∧
  OP_Dxyn (high_index_state 0xD012) = None ∧
  OP_Fx33 (high_index_state 0xF033) = None ∧
  OP_Fx55 (high_index_state 0xF155) = None ∧
  OP_Fx65 (high_index_state 0xF165) = None.
Proof.
  repeat split; try (vm_compute; reflexivity).
  intros Hspec. destruct (Hspec _ eq_refl) as [_ Hle].
  vm_compute in Hle. by apply Hle.
Qed.

(** ** Dispatch *)

(** C3, as the code has it: [table0], [table8] and [tableE] hold 15 entries
    and are indexed by a nibble, [tableF] holds 102 and is indexed by a
    byte.  A word of family 0x8 with low nibble 0xF (0x800F) and one of
    family 0xF with low byte above 0x65 (0xF0FF) read past the end of
    their table instead of reaching [OP_NULL]. *)
Theorem dispatch_reads_past_table_end (s : Chip8) :
  length table0 = 15%nat ∧ length table8 = 15%nat ∧
  length tableE = 15%nat ∧ length tableF = 102%nat ∧
  decode 0x800F = None ∧ dispatch (set_opcode 0x800F s) = None ∧
  decode 0xF0FF = None ∧ dispatch (set_opcode 0xF0FF s) = None.
Proof. repeat split; reflexivity. Qed.

(** ** store-registers and load-registers *)

Lemma set_memory_id s : set_memory (memory s) s = s.
Proof. by destruct s. Qed.

Lemma set_registers_id s : set_registers (registers s) s = s.
Proof. by destruct s. Qed.

Lemma store_register_eq i s :
  store_register i s = r ← load (registers s) i; set_mem (index s + i) r s.
Proof. reflexivity. Qed.

Lemma load_register_eq i s :
  load_register i s = m ← load (memory s) (index s + i); set_reg i m s.
Proof. reflexivity. Qed.

Lemma store_loop n : ∀ i s,
  0 ≤ i → i + Z.of_nat n ≤ Z.of_nat (length (registers s)) →
  0 ≤ index s → index s + i + Z.of_nat n ≤ Z.of_nat (length (memory s)) →
  ∃ m, for_loop n i store_register s = Some (set_memory m s) ∧
    length m = length (memory s) ∧
    (∀ j, i ≤ j < i + Z.of_nat n → load m (index s + j) = load (registers s) j) ∧
    (∀ a, ¬ (index s + i ≤ a < index s + i + Z.of_nat n) →
       load m a = load (memory s) a).
Proof.
  induction n as [|n IH]; intros i s Hi Hr Hidx Hm.
  - exists (memory s). rewrite set_memory_id.
    split; [done|]. split; [done|]. split; [intros; lia | done].
  - destruct (load_lt (registers s) i) as [r Hri]; [lia|].
    cbn [for_loop]. rewrite store_register_eq. rewrite Hri, bind_Some.
    rewrite set_mem_lt by lia. rewrite bind_Some.
    set (m1 := <[Z.to_nat (index s + i) := r]> (memory s)).
    destruct (IH (i + 1) (set_memory m1 s)) as (m & Hrun & Hlen & Hin & Hout);
      [simpl; unfold m1; rewrite ?length_insert; lia..|].
    simpl in Hlen, Hin, Hout.
    exists m. split; [exact Hrun|]. split.
    { rewrite Hlen. unfold m1. by rewrite length_insert. }
    split.
    + intros j Hj. destruct (decide (j = i)) as [->|Hne].
      * rewrite Hout by lia. rewrite Hri. unfold m1.
        apply load_insert_eq; lia.
      * apply Hin. lia.
    + intros a Ha. rewrite Hout by lia. unfold m1.
      apply load_insert_ne. lia.
Qed.

Lemma load_loop n : ∀ i s,
  0 ≤ i → i + Z.of_nat n ≤ Z.of_nat (length (registers s)) →
  0 ≤ index s → index s + i + Z.of_nat n ≤ Z.of_nat (length (memory s)) →
  ∃ r, for_loop n i load_register s = Some (set_registers r s) ∧
    length r = length (registers s) ∧
    (∀ j, i ≤ j < i + Z.of_nat n → load r j = load (memory s) (index s + j)) ∧
    (∀ j, ¬ (i ≤ j < i + Z.of_nat n) → load r j = load (registers s) j).
Proof.
  induction n as [|n IH]; intros i s Hi Hr Hidx Hm.
  - exists (registers s). rewrite set_registers_id.
    split; [done|]. split; [done|]. split; [intros; lia | done].
  - destruct (load_lt (memory s) (index s + i)) as [v Hv]; [lia|].
    cbn [for_loop]. rewrite load_register_eq. rewrite Hv, bind_Some.
    rewrite set_reg_lt by lia. rewrite bind_Some.
    set (r1 := <[Z.to_nat i := v]> (registers s)).
    destruct (IH (i + 1) (set_registers r1 s)) as (r & Hrun & Hlen & Hin & Hout);
      [simpl; unfold r1; rewrite ?length_insert; lia..|].
    simpl in Hlen, Hin, Hout.
    exists r. split; [exact Hrun|]. split.
    { rewrite Hlen. unfold r1. by rewrite length_insert. }
    split.
    + intros j Hj. destruct (decide (j = i)) as [->|Hne].
      * rewrite Hout by lia. rewrite Hv. unfold r1.
        apply load_insert_eq; lia.
      * apply Hin. lia.
    + intros j Hj. rewrite Hout by lia. unfold r1.
      apply load_insert_ne. lia.
Qed.

Lemma store_loop_frame n : ∀ i s s',
  for_loop n i store_register s = Some s' →
  index s' = index s ∧ registers s' = registers s.
Proof.
  induction n as [|n IH]; intros i s s' Hrun.
  - by injection Hrun as <-.
  - cbn [for_loop] in Hrun. rewrite store_register_eq in Hrun.
    destruct (load (registers s) i) as [r|]; [|done].
    rewrite bind_Some in Hrun. unfold set_mem in Hrun.
    destruct (store (memory s) (index s + i) r) as [m|]; [|done].
    rewrite !bind_Some in Hrun. by apply IH in Hrun.
Qed.

Lemma load_loop_frame n : ∀ i s s',
  for_loop n i load_register s = Some s' →
  index s' = index s ∧ memory s' = memory s.
Proof.
  induction n as [|n IH]; intros i s s' Hrun.
  - by injection Hrun as <-.
  - cbn [for_loop] in Hrun. rewrite load_register_eq in Hrun.
    destruct (load (memory s) (index s + i)) as [v|]; [|done].
    rewrite bind_Some in Hrun. unfold set_reg in Hrun.
    destruct (store (registers s) i v) as [r|]; [|done].
    rewrite !bind_Some in Hrun. by apply IH in Hrun.
Qed.

Lemma OP_Fx55_result s :
  valid s → index s + Vx_of s < 4096 →
  ∃ m, OP_Fx55 s = Some (set_memory m s) ∧
    length m = 4096%nat ∧
    (∀ j, 0 ≤ j ≤ Vx_of s → load m (index s + j) = reg s j).
Proof.
  intros Hs Hidx. pose proof (Vx_of_range s) as Hx.
  destruct (valid_index s Hs) as [Hi0 _].
  destruct (store_loop (Z.to_nat (Vx_of s + 1)) 0 s) as (m & Hrun & Hlen & Hin & _);
    [rewrite ?(valid_registers_length s Hs), ?(valid_memory_length s Hs); lia..|].
  exists m. unfold OP_Fx55. rewrite u8_Vx_of. split; [exact Hrun|].
  split; [by rewrite Hlen, (valid_memory_length s Hs)|].
  intros j Hj. apply Hin. lia.
Qed.

Lemma OP_Fx65_result s :
  length (registers s) = 16%nat → length (memory s) = 4096%nat →
  0 ≤ index s → index s + Vx_of s < 4096 →
  ∃ r, OP_Fx65 s = Some (set_registers r s) ∧
    (∀ j, 0 ≤ j ≤ Vx_of s → load r j = load (memory s) (index s + j)).
Proof.
  intros Hr Hm Hi0 Hidx. pose proof (Vx_of_range s) as Hx.
  destruct (load_loop (Z.to_nat (Vx_of s + 1)) 0 s) as (r & Hrun & _ & Hin & _);
    [rewrite ?Hr, ?Hm; lia..|].
  exists r. unfold OP_Fx65. rewrite u8_Vx_of. split; [exact Hrun|].
  intros j Hj. apply Hin. lia.
Qed.

(** C10: whenever store-registers or load-registers is defined, it leaves
    the index register as it was (it is not advanced by x + 1);
    store-registers leaves every register unchanged and load-registers
    leaves all of memory unchanged.  Both are defined when the bytes
    [index .. index + x] lie in memory. *)
Theorem block_transfer_frame (s : Chip8) :
  (∀ s', OP_Fx55 s = Some s' → index s' = index s ∧ registers s' = registers s) ∧
  (∀ s', OP_Fx65 s = Some s' → index s' = index s ∧ memory s' = memory s) ∧
  (valid s → index s + Vx_of s < 4096 →
     is_Some (OP_Fx55 s) ∧ is_Some (OP_Fx65 s)).
Proof.
  split; [|split].
  - intros s'. apply store_loop_frame.
  - intros s'. apply load_loop_frame.
  - intros Hs Hidx. split.
    + destruct (OP_Fx55_result s Hs Hidx) as (m & Hrun & _). by eexists.
    + destruct (OP_Fx65_result s) as (r & Hrun & _);
        [by destruct Hs..|by destruct (valid_index s Hs)|done|]. by eexists.
Qed.

(** The frame property at x = 3, index 0x400: both instructions are
    defined there and leave the index register at 0x400. *)
Lemma block_transfer_frame_witness :
  (∃ s', OP_Fx55 block_state = Some s' ∧ index s' = 0x400 ∧
     registers s' = registers block_state) ∧
  (∃ s', OP_Fx65 block_state = Some s' ∧ index s' = 0x400 ∧
     memory s' = memory block_state).
Proof.
  destruct (block_transfer_frame block_state) as (Hstore & Hload & Hdef).
  destruct Hdef as [[s1 Hs1] [s2 Hs2]].
  - apply validb_valid. vm_compute. reflexivity.
  - vm_compute. reflexivity.
  - split; [exists s1 | exists s2]; (split; [assumption|]).
    + apply (Hstore s1 Hs1).
    + apply (Hload s2 Hs2).
Defined.

(** C8: when the bytes [index .. index + x] lie in memory, store-registers
    followed by zeroing registers 0 to x and by load-registers with the
    same x restores the original values of registers 0 to x. *)
Theorem store_then_load_restores (s : Chip8) (op : Z) :
  valid s → index s + Vx_of s < 4096 →
  Z.shiftr (Z.land op 0x0F00) 8 = Vx_of s →
  ∃ s1 s2, OP_Fx55 s = Some s1 ∧
    OP_Fx65 (set_opcode op (zero_registers (Vx_of s) s1)) = Some s2 ∧
    ∀ i, 0 ≤ i ≤ Vx_of s → reg s2 i = reg s i.
Proof.
  intros Hs Hidx Hop. pose proof (Vx_of_range s) as Hx.
  destruct (valid_index s Hs) as [Hi0 _].
  destruct (OP_Fx55_result s Hs Hidx) as (m & Hrun & Hlen & Hm).
  set (sz := set_opcode op (zero_registers (Vx_of s) (set_memory m s))).
  assert (Hxz : Vx_of sz = Vx_of s) by exact Hop.
  destruct (OP_Fx65_result sz) as (r & Hrun2 & Hr).
  - simpl. rewrite length_app, length_replicate, length_drop.
    rewrite (valid_registers_length s Hs). lia.
  - exact Hlen.
  - exact Hi0.
  - rewrite Hxz. exact Hidx.
  - exists (set_memory m s), (set_registers r sz).
    split; [exact Hrun|]. split; [exact Hrun2|].
    intros i Hi. rewrite reg_set_registers, Hr by (rewrite Hxz; lia).
    simpl. by apply Hm.
Qed.

(** The round trip at x = 3, index 0x400: registers 0 to 3 hold 0x11, 0x22,
    0x33, 0x44 again. *)
Lemma store_then_load_restores_witness :
  ∃ s1 s2, OP_Fx55 block_state = Some s1 ∧
    OP_Fx65 (set_opcode 0xF365 (zero_registers 3 s1)) = Some s2 ∧
    ∀ i, 0 ≤ i ≤ 3 → reg s2 i = reg block_state i.
Proof.
  apply (store_then_load_restores block_state 0xF365
           ltac:(apply validb_valid; vm_compute; reflexivity)
           ltac:(vm_compute; reflexivity) eq_refl).
Defined.

(** ** wait-key *)

Lemma for_loop_app {A} (body : Z → A → option A) n m : ∀ i a,
  for_loop (n + m) i body a =
    a' ← for_loop n i body a; for_loop m (i + Z.of_nat n) body a'.
Proof.
  induction n as [|n IH]; intros i a.
  - simpl. by rewrite Z.add_0_r.
  - cbn [for_loop Nat.add]. destruct (body i a) as [a1|]; [|done].
    rewrite !bind_Some, IH.
    by replace (i + 1 + Z.of_nat n) with (i + Z.of_nat (S n)) by lia.
Qed.

Lemma scan_key_eq Vx i s kp :
  scan_key Vx i (s, kp) =
    k ← load (keypad s) i;
    if decide (k ≠ 0) then s' ← set_reg Vx (u8 i) s; Some (s', true)
    else Some (s, kp).
Proof. reflexivity. Qed.

Lemma scan_idle Vx n : ∀ i s kp,
  (∀ j, i ≤ j < i + Z.of_nat n → load (keypad s) j = Some 0) →
  for_loop n i (scan_key Vx) (s, kp) = Some (s, kp).
Proof.
  induction n as [|n IH]; intros i s kp Hkeys; [done|].
  cbn [for_loop]. rewrite scan_key_eq.
  rewrite Hkeys by lia. rewrite bind_Some, decide_False by lia.
  rewrite bind_Some. apply IH. intros j Hj. apply Hkeys. lia.
Qed.

Lemma scan_any Vx n : ∀ i s kp,
  0 ≤ Vx < Z.of_nat (length (registers s)) →
  0 ≤ i → i + Z.of_nat n ≤ Z.of_nat (length (keypad s)) →
  ∃ r kp', for_loop n i (scan_key Vx) (s, kp) = Some (set_registers r s, kp') ∧
    length r = length (registers s) ∧
    (∀ j, j ≠ Vx → load r j = load (registers s) j).
Proof.
  induction n as [|n IH]; intros i s kp HVx Hi Hn.
  - exists (registers s), kp. by rewrite set_registers_id.
  - destruct (load_lt (keypad s) i) as [k Hk]; [lia|].
    cbn [for_loop]. rewrite scan_key_eq.
    rewrite Hk, bind_Some. case_decide as Hpressed.
    + rewrite set_reg_lt by lia. rewrite !bind_Some.
      set (r1 := <[Z.to_nat Vx := u8 i]> (registers s)).
      destruct (IH (i + 1) (set_registers r1 s) true) as (r & kp' & Hrun & Hlen & Hout);
        [simpl; unfold r1; rewrite ?length_insert; lia..|].
      simpl in Hlen, Hout. exists r, kp'. split; [exact Hrun|]. split.
      * rewrite Hlen. unfold r1. by rewrite length_insert.
      * intros j Hj. rewrite Hout by done. unfold r1.
        apply load_insert_ne. lia.
    + rewrite bind_Some. apply IH; lia.
Qed.

Lemma scan_highest Vx s k v :
  length (registers s) = 16%nat → length (keypad s) = 16%nat →
  0 ≤ Vx < 16 → 0 ≤ k < 16 →
  load (keypad s) k = Some v → v ≠ 0 →
  (∀ j, k < j < 16 → load (keypad s) j = Some 0) →
  ∃ r, for_loop 16 0 (scan_key Vx) (s, false) = Some (set_registers r s, true) ∧
    load r Vx = Some k.
Proof.
  intros Hr Hkp HVx Hk Hv Hpressed Habove.
  assert (Hsplit : for_loop 16 0 (scan_key Vx) (s, false) =
            for_loop (Z.to_nat k + S (Z.to_nat (15 - k))) 0 (scan_key Vx) (s, false))
    by (f_equal; lia).
  rewrite Hsplit, for_loop_app.
  destruct (scan_any Vx (Z.to_nat k) 0 s false) as (r1 & kp1 & -> & Hlen & _);
    [lia..|].
  rewrite bind_Some. cbn [for_loop]. rewrite scan_key_eq.
  replace (0 + Z.of_nat (Z.to_nat k)) with k by lia.
  change (keypad (set_registers r1 s)) with (keypad s).
  rewrite Hv, bind_Some, decide_True by done.
  rewrite set_reg_lt by (simpl; lia). rewrite !bind_Some.
  rewrite scan_idle by (intros j Hj; apply Habove; lia).
  eexists. split; [reflexivity|]. simpl. rewrite u8_id by lia.
  apply load_insert_eq; lia.
Qed.

Lemma dispatch_decode s : dispatch s = h ← decode (opcode s); run h s.
Proof.
  unfold dispatch, decode.
  destruct (entry table _) as [[]|]; reflexivity.
Qed.

Lemma decode_wait_key x :
  0 ≤ x < 16 →
  decode (0xF00A + 256 * x) = Some ptr_OP_Fx0A ∧
  Z.shiftr (Z.land (0xF00A + 256 * x) 0x0F00) 8 = x.
Proof.
  intros Hx.
  assert (x = 0 ∨ x = 1 ∨ x = 2 ∨ x = 3 ∨ x = 4 ∨ x = 5 ∨ x = 6 ∨ x = 7 ∨
          x = 8 ∨ x = 9 ∨ x = 10 ∨ x = 11 ∨ x = 12 ∨ x = 13 ∨ x = 14 ∨ x = 15)
    as Hcases by lia.
  repeat (destruct Hcases as [->|Hcases]); try subst x; by vm_compute.
Qed.

Lemma update_timers_frame s :
  pc (update_timers s) = pc s ∧ registers (update_timers s) = registers s ∧
  memory (update_timers s) = memory s ∧ keypad (update_timers s) = keypad s.
Proof. unfold update_timers. repeat case_decide; done. Qed.

Lemma update_timers_valid s : valid s → valid (update_timers s).
Proof.
  intros [].
  unfold update_timers, u8, is_u8 in *.
  repeat case_decide; split; simpl; (done || unfold is_u8; lia).
Qed.

(** One [Cycle] on a wait-key instruction with no key pressed. *)
Lemma Cycle_wait_key_idle s x :
  valid s → 0 ≤ x < 16 → fetch s = Some (0xF00A + 256 * x) →
  (∀ k, 0 ≤ k < 16 → load (keypad s) k = Some 0) →
  ∃ s', Cycle s = Some s' ∧ valid s' ∧ pc s' = pc s ∧
    registers s' = registers s ∧ memory s' = memory s ∧ keypad s' = keypad s.
Proof.
  intros Hs Hx Hop Hkeys.
  assert (pc s + 1 < 4096) as Hpc by (apply fetch_is_Some; [done | by eexists]).
  destruct (valid_pc s Hs) as [Hpc0 _].
  destruct (decode_wait_key x Hx) as [Hdec HVx].
  rewrite Cycle_fetch, Hop, bind_Some, dispatch_decode.
  cbn [opcode set_pc set_opcode]. rewrite Hdec, bind_Some. cbn [run].
  unfold OP_Fx0A. rewrite scan_idle by (intros j Hj; apply Hkeys; lia).
  rewrite !bind_Some. cbn [fst snd pc set_pc].
  eexists. split; [reflexivity|].
  assert (Hback : u16 (u16 (pc s + 2) - 2) = pc s).
  { rewrite (u16_id (pc s + 2)) by lia. rewrite u16_id by lia. lia. }
  rewrite Hback.
  destruct (update_timers_frame
              (set_pc (pc s) (set_pc (u16 (pc s + 2))
                 (set_opcode (0xF00A + 256 * x) s)))) as (-> & -> & -> & ->).
  split; [|done].
  apply update_timers_valid. by destruct Hs.
Qed.

(** One [Cycle] on a wait-key instruction with key [k] the highest one
    pressed. *)
Lemma Cycle_wait_key_pressed s x k v :
  valid s → 0 ≤ x < 16 → fetch s = Some (0xF00A + 256 * x) →
  0 ≤ k < 16 → load (keypad s) k = Some v → v ≠ 0 →
  (∀ j, k < j < 16 → load (keypad s) j = Some 0) →
  ∃ s', Cycle s = Some s' ∧ pc s' = pc s + 2 ∧ reg s' x = Some k.
Proof.
  intros Hs Hx Hop Hk Hv Hpressed Habove.
  assert (pc s + 1 < 4096) as Hpc by (apply fetch_is_Some; [done | by eexists]).
  destruct (valid_pc s Hs) as [Hpc0 _].
  destruct (decode_wait_key x Hx) as [Hdec HVx].
  rewrite Cycle_fetch, Hop, bind_Some, dispatch_decode.
  cbn [opcode set_pc set_opcode]. rewrite Hdec, bind_Some. cbn [run].
  unfold OP_Fx0A.
  set (s1 := set_pc (u16 (pc s + 2)) (set_opcode (0xF00A + 256 * x) s)).
  assert (HVx1 : u8 (Vx_of s1) = x).
  { unfold Vx_of, s1. cbn [opcode set_pc set_opcode]. rewrite HVx. apply u8_id. lia. }
  rewrite HVx1.
  destruct (scan_highest x s1 k v) as (r & -> & Hr);
    [by destruct Hs..|done|done|done|done|done|].
  rewrite !bind_Some. cbn [fst snd].
  eexists. split; [reflexivity|].
  destruct (update_timers_frame (set_registers r s1)) as (Hp & Hrg & _).
  unfold reg. rewrite Hp, Hrg. simpl. rewrite u16_id by lia. done.
Qed.

Lemma fetch_ext s s' : memory s' = memory s → pc s' = pc s → fetch s' = fetch s.
Proof. intros Hm Hp. unfold fetch. by rewrite Hm, Hp. Qed.

(** Any number of [Cycle]s on a wait-key instruction with no key pressed. *)
Lemma Cycles_wait_key_idle x n : ∀ s,
  valid s → 0 ≤ x < 16 → fetch s = Some (0xF00A + 256 * x) →
  (∀ k, 0 ≤ k < 16 → load (keypad s) k = Some 0) →
  ∃ s', Cycles n s = Some s' ∧ valid s' ∧ pc s' = pc s ∧
    registers s' = registers s ∧ memory s' = memory s ∧ keypad s' = keypad s.
Proof.
  induction n as [|n IH]; intros s Hs Hx Hop Hkeys.
  - by exists s.
  - destruct (Cycle_wait_key_idle s x Hs Hx Hop Hkeys)
      as (s1 & Hrun & Hs1 & Hp & Hr & Hm & Hk).
    destruct (IH s1) as (s' & Hrun' & Hs' & Hp' & Hr' & Hm' & Hk');
      [done | done | by rewrite (fetch_ext s s1) | by rewrite Hk |].
    exists s'. cbn [Cycles]. rewrite Hrun, bind_Some.
    split; [done|]. split; [done|]. by rewrite Hp', Hr', Hm', Hk'.
Qed.

(** C4 (amended): on a wait-key instruction, as long as no key is pressed
    every [Cycle] leaves the program counter (and the registers) where they
    were, for any number of cycles; once the keypad holds a pressed key,
    the next [Cycle] advances the program counter by 2, once, and leaves in
    [reg[x]] the index of the highest pressed key, the last one the scan
    detects. *)
Theorem wait_key_repeats_then_takes_highest_key (s : Chip8) (x : Z) (n : nat) :
  valid s → 0 ≤ x < 16 → fetch s = Some (0xF00A + 256 * x) →
  (∀ k, 0 ≤ k < 16 → load (keypad s) k = Some 0) →
  ∃ sn, Cycles n s = Some sn ∧ pc sn = pc s ∧ registers sn = registers s ∧
    ∀ kp k v,
      length kp = 16%nat → Forall is_u8 kp →
      0 ≤ k < 16 → load kp k = Some v → v ≠ 0 →
      (∀ j, k < j < 16 → load kp j = Some 0) →
      ∃ s', Cycle (set_keypad kp sn) = Some s' ∧
        pc s' = pc s + 2 ∧ reg s' x = Some k.
Proof.
  intros Hs Hx Hop Hkeys.
  destruct (Cycles_wait_key_idle x n s Hs Hx Hop Hkeys)
    as (sn & Hrun & Hsn & Hp & Hr & Hm & _).
  exists sn. split; [done|]. split; [done|]. split; [done|].
  intros kp k v Hlen Hkp Hk Hv Hpressed Habove.
  rewrite <- Hp.
  apply (Cycle_wait_key_pressed (set_keypad kp sn) x k v); try done.
  - by destruct Hsn.
  - by rewrite (fetch_ext sn (set_keypad kp sn)), (fetch_ext s sn).
Qed.

(** The amended wait-key property at the program 0xF30A: five idle cycles
    leave the program counter at 0x200; with keys 1 and 2 pressed, the
    next cycle moves it to 0x202 and leaves 2 in [reg[3]]. *)
Lemma wait_key_repeats_then_takes_highest_key_witness :
  ∃ sn, Cycles 5 wait_key_state = Some sn ∧ pc sn = 0x200 ∧
    ∃ s', Cycle (set_keypad [0; 1; 1; 0; 0; 0; 0; 0; 0; 0; 0; 0; 0; 0; 0; 0] sn)
            = Some s' ∧
      pc s' = 0x202 ∧ reg s' 3 = Some 2.
Proof.
  destruct (wait_key_repeats_then_takes_highest_key wait_key_state 3 5)
    as (sn & Hrun & Hp & _ & Hkey).
  - apply validb_valid. vm_compute. reflexivity.
  - lia.
  - vm_compute. reflexivity.
  - intros k Hk. change (keypad wait_key_state) with (replicate 16 0).
    unfold load. rewrite decide_True by lia. apply lookup_replicate_2. lia.
  - exists sn. split; [exact Hrun|]. split; [exact Hp|].
    apply (Hkey _ 2 1).
    + reflexivity.
    + repeat constructor; unfold is_u8; lia.
    + lia.
    + reflexivity.
    + lia.
    + intros j Hj. unfold load. rewrite decide_True by lia.
      assert (∃ m, Z.to_nat j = (3 + m)%nat ∧ (m < 13)%nat) as (m & -> & Hm)
        by (exists (Z.to_nat j - 3)%nat; lia).
      simpl. do 13 (destruct m as [|m]; [reflexivity|]). lia.
Defined.

(** C4, as stated, fails when more than one key is pressed: with keys 1
    and 2 down the lowest pressed key is 1, and the code leaves 2 in
    [reg[3]]. *)
Lemma wait_key_takes_last_detected_key : ¬ wait_key_lowest_spec two_keys_state 3.
Proof.
  intros Hspec.
  destruct (Hspec 1 1) as (s' & Hrun & _ & Hreg).
  - lia.
  - reflexivity.
  - lia.
  - intros j Hj. assert (j = 0) as -> by lia. reflexivity.
  - vm_compute in Hrun. injection Hrun as <-. vm_compute in Hreg. discriminate.
Qed.

(** ** draw-sprite *)

(** C2, as the code has it: the pixel index is
    [(yPos + row) * 64 + (xPos + col)] with no wrap of the column or the
    row.  An 8x1 sprite at x = 63, y = 31 toggles pixel 2047 and then
    leaves the framebuffer (index 2048 and beyond), which is undefined;
    at x = 62, y = 0 it toggles pixels 62 to 69, that is columns 0 to 5 of
    row 1 where the specification names columns 0 to 5 of row 0. *)
Theorem OP_Dxyn_pixel_index_not_wrapped :
  OP_Dxyn (sprite_state 63 31) = None ∧
  draw_pixel 63 31 0 0xFF 1 (sprite_state 63 31) = None ∧
  wrapped_pixel 63 31 0 1 = 31 * 64 + 0 ∧
  pixels_on ∘ video <$> OP_Dxyn (sprite_state 62 0)
    = Some [62; 63; 64; 65; 66; 67; 68; 69] ∧
  wrapped_pixel 62 0 0 2 = 0.
Proof. repeat split; vm_compute; reflexivity. Qed.

(** What one set sprite bit does in any state: the pixel at
    [(yPos + row) * 64 + (xPos + col)] is read and written, which is
    undefined when that index lies past the framebuffer; inside it the
    pixel is XOR-ed with 0xFFFFFFFF and no other pixel changes. *)
Lemma draw_pixel_set_bit xPos yPos row spriteByte col s :
  length (registers s) = 16%nat →
  u8 (Z.land spriteByte (Z.shiftr 0x80 col)) ≠ 0 →
  let i := (yPos + row) * VIDEO_WIDTH + (xPos + col) in
  (Z.of_nat (length (video s)) ≤ i →
     draw_pixel xPos yPos row spriteByte col s = None) ∧
  (0 ≤ i < Z.of_nat (length (video s)) →
     ∃ s', draw_pixel xPos yPos row spriteByte col s = Some s' ∧
       load (video s') i = (λ px, Z.lxor px 0xFFFFFFFF) <$> load (video s) i ∧
       ∀ j, j ≠ i → load (video s') j = load (video s) j).
Proof.
  intros Hlen Hbit i. unfold draw_pixel. fold i. split.
  - intros Hi. rewrite decide_False by lia. done.
  - intros Hi. rewrite !decide_True by done.
    destruct (load_lt (video s) i Hi) as [px Hpx].
    rewrite Hpx, bind_Some.
    assert (∃ s1, (if decide (px = 0xFFFFFFFF) then set_reg 0xF 1 s else Some s)
                    = Some s1 ∧ video s1 = video s) as (s1 & -> & Hv).
    { case_decide; [|by eexists].
      rewrite set_reg_lt by lia. by eexists. }
    rewrite bind_Some, Hv, Hpx, bind_Some, store_lt by done.
    eexists. split; [reflexivity|]. cbn [video set_video]. split.
    + by rewrite load_insert_eq by lia.
    + intros j Hj. apply load_insert_ne. lia.
Qed.

(** When the whole sprite fits the screen without wrapping, the pixel the
    code toggles is the one the specification names. *)
Lemma draw_pixel_index_in_screen x y row col :
  0 ≤ x → 0 ≤ col → x + col < VIDEO_WIDTH →
  0 ≤ y → 0 ≤ row → y + row < VIDEO_HEIGHT →
  (y + row) * VIDEO_WIDTH + (x + col) = wrapped_pixel x y row col.
Proof.
  intros. unfold wrapped_pixel, VIDEO_WIDTH, VIDEO_HEIGHT in *.
  rewrite !Z.mod_small by lia. reflexivity.
Qed.

(** ** Which instruction words resolve *)

Lemma family_range op : 0 ≤ family op < 16.
Proof.
  unfold family. rewrite Z.shiftr_land. change (Z.shiftr 0xF000 12) with (Z.ones 4).
  rewrite Z.land_ones by lia. apply Z.mod_pos_bound. lia.
Qed.

Lemma nibble_range op : 0 ≤ Z.land op 0x000F < 16.
Proof.
  change 0x000F with (Z.ones 4). rewrite Z.land_ones by lia.
  apply Z.mod_pos_bound. lia.
Qed.

Lemma low_byte_range op : 0 ≤ Z.land op 0x00FF < 256.
Proof.
  change 0x00FF with (Z.ones 8). rewrite Z.land_ones by lia.
  apply Z.mod_pos_bound. lia.
Qed.

Lemma entry_None_iff {A} (t : list A) i :
  0 ≤ i → entry t i = None ↔ Z.of_nat (length t) ≤ i.
Proof.
  intros Hi. unfold entry. rewrite decide_True by done.
  rewrite lookup_ge_None. lia.
Qed.

(** The instruction words for which a table lookup leaves its table are
    exactly those of family 0x0, 0x8 or 0xE with low nibble 0xF and those
    of family 0xF with low byte above 0x65; every other word resolves to a
    handler. *)
Lemma decode_None_iff op :
  decode op = None ↔
    ((family op = 0x0 ∨ family op = 0x8 ∨ family op = 0xE) ∧ Z.land op 0x000F = 0xF) ∨
    (family op = 0xF ∧ Z.land op 0x00FF > 0x65).
Proof.
  pose proof (family_range op) as Hf. pose proof (nibble_range op) as Hn.
  pose proof (low_byte_range op) as Hb.
  unfold decode. fold (family op).
  assert (Hlen15 : length table0 = 15%nat ∧ length table8 = 15%nat ∧
                   length tableE = 15%nat ∧ length tableF = 102%nat) by done.
  destruct Hlen15 as (H0 & H8 & HE & HF).
  assert (family op = 0 ∨ family op = 1 ∨ family op = 2 ∨ family op = 3 ∨
          family op = 4 ∨ family op = 5 ∨ family op = 6 ∨ family op = 7 ∨
          family op = 8 ∨ family op = 9 ∨ family op = 10 ∨ family op = 11 ∨
          family op = 12 ∨ family op = 13 ∨ family op = 14 ∨ family op = 15)
    as Hcases by lia.
  destruct Hcases as
    [Hfam|[Hfam|[Hfam|[Hfam|[Hfam|[Hfam|[Hfam|[Hfam|[Hfam|[Hfam|[Hfam|[Hfam|[Hfam|[Hfam|[Hfam|Hfam]]]]]]]]]]]]]]];
    rewrite Hfam;
    (set (e := entry table _); vm_compute in e; subst e);
    rewrite bind_Some; cbv beta iota;
    rewrite ?entry_None_iff by lia; rewrite ?H0, ?H8, ?HE, ?HF; try lia;
    (split; [done | lia]).
Qed.

(** A word that resolves to [OP_NULL] leaves the whole state unchanged. *)
Lemma dispatch_OP_NULL s :
  decode (opcode s) = Some ptr_OP_NULL → dispatch s = Some s.
Proof. intros Hdec. by rewrite dispatch_decode, Hdec. Qed.

(** ** Whole programs *)

(** [wait_key_state] is the machine after loading the two-byte program
    0xF30A. *)
Lemma LoadROM_wait_key : LoadROM (Some [0xF3; 0x0A]) fresh = Some wait_key_state.
Proof. vm_compute. reflexivity. Qed.

(** Loading 0x6005, 0x6103, 0x8014 and stepping three times yields
    [reg[0] = 8], [reg[15] = 0] and the program counter 6 past the start
    address. *)
Lemma add_program_runs :
  (LoadROM (Some add_program) fresh ≫= Cycles 3) ≫=
    (λ s, Some (reg s 0, reg s 0xF, pc s))
  = Some (Some 8, Some 0, START_ADDRESS + 6).
Proof. vm_compute. reflexivity. Qed.

(** call 0x300 followed by return brings the program counter back to the
    instruction after the call. *)
Lemma call_then_return :
  pc <$> (LoadROM (Some call_program) fresh ≫= Cycles 2)
  = Some (START_ADDRESS + 2).
Proof. vm_compute. reflexivity. Qed.
